(** * Black-Scholes-Merton option model ([BsOption]): shallow embedding

    The Python class [BsOption] of [src/main.py] is embedded as follows.

    - Python floats are modelled as real numbers ([R]): every arithmetic
      operation is exact, and [np.log], [np.exp], [np.sqrt] are the real
      functions [ln], [exp], [sqrt].  IEEE special values (NaN, Inf) and
      rounding are outside this model; module [Double] evaluates the
      pricing formulas on IEEE binary64 values, for what depends on
      them.
    - [scipy.stats.norm] is modelled by the standard normal distribution
      over the reals (module [Normal]).
    - Objects live in a store ([heap]) indexed by references; a method
      that mutates [self] or constructs other objects is a computation in
      the state-and-exception monad [M].  Methods that only read [self]
      are functions from the object's record to a [result].
    - A raised Python exception is a value of type [exn]. *)

From Stdlib Require Import Reals Ranalysis5 Lra Lia ZArith String.
From Stdlib Require Floats.
From stdpp Require Import base option gmap strings.

Open Scope R_scope.

(** * The standard normal distribution ([scipy.stats.norm]) *)

Module Normal.

(** Integrating the Maclaurin series of [exp (- t² / 2)] term by term gives
    [∫_0^x exp (- t² / 2) dt = x * Σ_n (-1)^n (x²/2)^n / (n! (2n+1))]. *)
Definition coeff (n : nat) : R :=
  (-1) ^ n / (INR (fact n) * INR (2 * n + 1)).

Lemma INR_odd_pos (n : nat) : 0 < INR (2 * n + 1).
Proof. apply lt_0_INR. lia. Qed.

Lemma coeff_neq_0 (n : nat) : coeff n <> 0.
Proof.
  unfold coeff. apply Rmult_integral_contrapositive_currified.
  - apply pow_nonzero. lra.
  - apply Rinv_neq_0_compat, Rmult_integral_contrapositive_currified.
    + apply INR_fact_neq_0.
    + pose proof (INR_odd_pos n). lra.
Qed.

Lemma coeff_abs (n : nat) :
  Rabs (coeff n) = / INR (fact n) * / INR (2 * n + 1).
Proof.
  pose proof (INR_fact_lt_0 n) as Hf. pose proof (INR_odd_pos n) as Ho.
  unfold coeff, Rdiv. rewrite Rabs_mult, pow_1_abs, Rabs_inv, Rabs_pos_eq.
  - rewrite Rinv_mult. ring.
  - apply Rlt_le, Rmult_lt_0_compat; assumption.
Qed.

Lemma coeff_ratio_le (n : nat) :
  Rabs (coeff (Datatypes.S n) / coeff n)
  <= Rabs (/ INR (fact (Datatypes.S n)) * / / INR (fact n)).
Proof.
  unfold Rdiv. rewrite !Rabs_mult, !Rabs_inv, coeff_abs, coeff_abs.
  pose proof (INR_fact_lt_0 n) as Hf.
  pose proof (INR_fact_lt_0 (Datatypes.S n)) as HfS.
  pose proof (INR_odd_pos n) as Ho.
  pose proof (INR_odd_pos (Datatypes.S n)) as HoS.
  rewrite !Rinv_mult, !Rinv_inv, !(Rabs_pos_eq (INR (fact _))) by lra.
  assert (/ INR (2 * Datatypes.S n + 1) * INR (2 * n + 1) <= 1) as Hq.
  { apply (Rmult_le_reg_l (INR (2 * Datatypes.S n + 1))); [assumption |].
    rewrite <- Rmult_assoc, Rinv_r, Rmult_1_l, Rmult_1_r by lra.
    apply le_INR. lia. }
  assert (0 < / INR (fact (Datatypes.S n)) * INR (fact n)) as Hp.
  { apply Rmult_lt_0_compat; [now apply Rinv_0_lt_compat | assumption]. }
  set (a := / INR (fact (Datatypes.S n))) in *.
  set (b := / INR (2 * Datatypes.S n + 1)) in *.
  replace (a * b * (INR (fact n) * INR (2 * n + 1)))
    with (a * INR (fact n) * (b * INR (2 * n + 1))) by ring.
  assert (0 < b) by (apply Rinv_0_lt_compat; assumption).
  nra.
Qed.

Lemma coeff_ratio_cv :
  Un_cv (fun n => Rabs (coeff (Datatypes.S n) / coeff n)) 0.
Proof.
  intros eps Heps. destruct (Alembert_exp eps Heps) as [N HN].
  exists N. intros n Hn. specialize (HN n Hn).
  unfold Rdist in *. rewrite Rminus_0_r in *. rewrite Rabs_Rabsolu in *.
  eapply Rle_lt_trans; [apply coeff_ratio_le | exact HN].
Qed.

Definition series (y : R) : { l : R | Pser coeff y l } :=
  Alembert_C3 coeff y coeff_neq_0 coeff_ratio_cv.

(** [G y = Σ_n (-1)^n y^n / (n! (2n+1))]. *)
Definition G (y : R) : R := proj1_sig (series y).

(** [norm.cdf] *)
Definition cdf (x : R) : R := 1 / 2 + x / sqrt (2 * PI) * G (x * x / 2).

(** [norm.pdf] *)
Definition pdf (x : R) : R := exp (- (x * x) / 2) / sqrt (2 * PI).

(** Term [n] of the primitive [x * G (x² / 2)] and of its derivative. *)
Definition prim_term (n : nat) (x : R) : R := coeff n / 2 ^ n * x ^ (2 * n + 1).
Definition dens_term (n : nat) (x : R) : R :=
  / INR (fact n) * (- (x * x) / 2) ^ n.

(** The series of the density converges to [exp (- x² / 2)]. *)
Definition dens_cv (x : R) : { l : R | Un_cv (fun N => SP dens_term N x) l } :=
  exist _ (exp (- (x * x) / 2)) (proj2_sig (exist_exp (- (x * x) / 2))).

Lemma sqrt_2PI_gt_1 : 1 < sqrt (2 * PI).
Proof.
  rewrite <- sqrt_1 at 1. apply sqrt_lt_1_alt.
  pose proof PI2_1. lra.
Qed.

Lemma G_cv (y : R) : Un_cv (sum_f_R0 (fun n => coeff n * y ^ n)) (G y).
Proof. exact (proj2_sig (series y)). Qed.

Lemma cv_const (c : R) : Un_cv (fun _ => c) c.
Proof.
  intros eps Heps. exists 0%nat. intros n _.
  rewrite Rdist_eq. exact Heps.
Qed.

(** Symmetry of the distribution: [Φ(-x) = 1 - Φ(x)]. *)
Lemma cdf_neg (x : R) : cdf (- x) = 1 - cdf x.
Proof.
  unfold cdf. replace (- x * - x / 2) with (x * x / 2) by lra.
  pose proof sqrt_2PI_gt_1. field. lra.
Qed.

Lemma cdf_0 : cdf 0 = 1 / 2.
Proof. unfold cdf. unfold Rdiv. ring. Qed.

Lemma pdf_pos (x : R) : 0 < pdf x.
Proof.
  unfold pdf. apply Rdiv_lt_0_compat; [apply exp_pos |].
  pose proof sqrt_2PI_gt_1. lra.
Qed.

(** The model is the standard normal distribution function: [cdf] is the
    primitive of the density [pdf] that takes the value [1/2] at [0]. *)

Lemma prim_term_eq (n : nat) (x : R) :
  prim_term n x = x * (coeff n * (x * x / 2) ^ n).
Proof.
  unfold prim_term. rewrite pow_add, pow_sqr, pow_1.
  unfold Rdiv. rewrite (Rpow_mult_distr (x * x)), pow_inv. ring.
Qed.

Lemma dens_term_eq (n : nat) (x : R) :
  coeff n / 2 ^ n * (INR (2 * n + 1) * x ^ (2 * n)) = dens_term n x.
Proof.
  unfold dens_term, coeff.
  replace (- (x * x) / 2) with (-1 * ((x * x) * / 2)) by (unfold Rdiv; ring).
  rewrite pow_sqr, !Rpow_mult_distr, pow_inv.
  pose proof (INR_odd_pos n). pose proof (INR_fact_lt_0 n).
  assert (2 ^ n <> 0) by (apply pow_nonzero; lra).
  field. repeat split; lra.
Qed.

Lemma prim_term_derive (n : nat) (x : R) :
  derivable_pt_lim (prim_term n) x (dens_term n x).
Proof.
  rewrite <- dens_term_eq.
  replace (2 * n)%nat with (Nat.pred (2 * n + 1)) at 2 by lia.
  apply (derivable_pt_lim_scal (fun y => y ^ (2 * n + 1))), derivable_pt_lim_pow.
Qed.

Lemma SP_derive (N : nat) (x : R) :
  derivable_pt_lim (SP prim_term N) x (SP dens_term N x).
Proof.
  induction N as [| N IH].
  - apply prim_term_derive.
  - apply (derivable_pt_lim_plus (SP prim_term N) (prim_term (Datatypes.S N))).
    + exact IH.
    + apply prim_term_derive.
Qed.

Lemma SP_prim_cv (x : R) :
  Un_cv (fun N => SP prim_term N x) (x * G (x * x / 2)).
Proof.
  apply Un_cv_ext with (un := fun N => x * sum_f_R0 (fun n => coeff n * (x * x / 2) ^ n) N).
  - intros N. unfold SP. rewrite scal_sum. apply sum_eq. intros n _.
    rewrite prim_term_eq. ring.
  - apply (CV_mult (fun _ => x) _ x).
    + apply cv_const.
    + apply G_cv.
Qed.

Lemma dens_CVN (rad : posreal) : CVN_r dens_term rad.
Proof.
  exists (fun n => / INR (fact n) * (rad * rad / 2) ^ n), (exp (rad * rad / 2)).
  pose proof (cond_pos rad) as Hr.
  split.
  - apply Un_cv_ext with (un := sum_f_R0 (fun n => / INR (fact n) * (rad * rad / 2) ^ n)).
    + intros N. apply sum_eq. intros n _. symmetry. apply Rabs_pos_eq.
      apply Rmult_le_pos.
      * apply Rlt_le, Rinv_0_lt_compat, INR_fact_lt_0.
      * apply pow_le. nra.
    + exact (proj2_sig (exist_exp (rad * rad / 2))).
  - intros n y Hy. unfold Boule in Hy. rewrite Rminus_0_r in Hy.
    unfold dens_term. rewrite Rabs_mult, Rabs_pos_eq
      by apply Rlt_le, Rinv_0_lt_compat, INR_fact_lt_0.
    apply Rmult_le_compat_l; [apply Rlt_le, Rinv_0_lt_compat, INR_fact_lt_0 |].
    rewrite <- RPow_abs. apply pow_incr. split; [apply Rabs_pos |].
    unfold Rdiv. rewrite Rabs_mult, Rabs_Ropp, Rabs_mult, (Rabs_pos_eq (/ 2)) by lra.
    pose proof (Rabs_pos y). nra.
Qed.

Lemma prim_derive (x : R) :
  derivable_pt_lim (fun y => y * G (y * y / 2)) x (exp (- (x * x) / 2)).
Proof.
  assert (0 < Rabs x + 1) as Hrad by (pose proof (Rabs_pos x); lra).
  apply (derivable_pt_lim_CVU (SP prim_term) (SP dens_term)
           (fun y => y * G (y * y / 2)) (fun y => exp (- (y * y) / 2))
           x 0 (mkposreal _ Hrad)).
  - unfold Boule. simpl. rewrite Rminus_0_r. lra.
  - intros y n _. apply SP_derive.
  - intros y _. apply SP_prim_cv.
  - apply (CVU_ext_lim _ (SFL dens_term dens_cv)).
    + apply CVN_CVU, dens_CVN.
    + intros y _. reflexivity.
  - intros y _. apply derivable_continuous_pt.
    exists (exp (- (y * y) / 2) * (- (1 * y + y * 1) / 2)).
    apply (derivable_pt_lim_comp (fun z => - (z * z) / 2) exp).
    + unfold Rdiv. apply (derivable_pt_lim_scal_right (fun z => - (z * z))).
      apply (derivable_pt_lim_opp (fun z => z * z)).
      apply (derivable_pt_lim_mult id id); apply derivable_pt_lim_id.
    + apply derivable_pt_lim_exp.
Qed.

Lemma cdf_derive (x : R) : derivable_pt_lim cdf x (pdf x).
Proof.
  pose proof sqrt_2PI_gt_1 as Hs.
  replace (pdf x) with (0 + / sqrt (2 * PI) * exp (- (x * x) / 2))
    by (unfold pdf; field; lra).
  apply (derivable_pt_lim_ext
           (plus_fct (fct_cte (1 / 2))
              (mult_real_fct (/ sqrt (2 * PI))
                 (fun y => y * G (y * y / 2))))).
  - intros z. unfold cdf, plus_fct, mult_real_fct, fct_cte. field. lra.
  - apply derivable_pt_lim_plus.
    + apply derivable_pt_lim_const.
    + apply derivable_pt_lim_scal, prim_derive.
Qed.

(** The density is at most [1], so the distribution function moves away
    from [1/2] no faster than its argument, and it increases. *)
Lemma pdf_le_1 (x : R) : pdf x <= 1.
Proof.
  unfold pdf. pose proof sqrt_2PI_gt_1 as Hs.
  assert (exp (- (x * x) / 2) <= 1) as He.
  { rewrite <- exp_0.
    destruct (Req_dec x 0) as [-> | Hx].
    - replace (- (0 * 0) / 2) with 0 by field. lra.
    - apply Rlt_le, exp_increasing. nra. }
  pose proof (exp_pos (- (x * x) / 2)) as Hp.
  apply (Rmult_le_reg_r (sqrt (2 * PI))); [lra |].
  unfold Rdiv. rewrite Rmult_assoc, Rinv_l by lra. nra.
Qed.

Lemma cdf_above_half (x : R) : 0 < x -> 0 < cdf x - 1 / 2 <= x.
Proof.
  intros Hx.
  destruct (MVT_cor2 cdf pdf 0 x Hx (fun c _ => cdf_derive c))
    as (c & Hc & _).
  rewrite cdf_0, Rminus_0_r in Hc. rewrite Hc.
  pose proof (pdf_pos c). pose proof (pdf_le_1 c). nra.
Qed.

Lemma cdf_bound (x : R) : Rabs (cdf x - 1 / 2) <= Rabs x.
Proof.
  destruct (Rtotal_order x 0) as [Hneg | [-> | Hpos]].
  - assert (0 < - x) as Hx by lra.
    pose proof (cdf_above_half (- x) Hx) as H. rewrite cdf_neg in H.
    rewrite (Rabs_left x) by assumption.
    unfold Rabs. destruct (Rcase_abs _); lra.
  - rewrite cdf_0, Rminus_diag, Rabs_R0. lra.
  - pose proof (cdf_above_half x Hpos) as H.
    rewrite (Rabs_pos_eq x) by lra.
    unfold Rabs. destruct (Rcase_abs _); lra.
Qed.

End Normal.

(** * Python values, exceptions and results *)

(** The exceptions the class can raise.  [ZeroDivisionError] comes from
    the Python-level division [self.S / self.K]; [AttributeError] from a
    method called on a reference that holds no [BsOption]. *)
Inductive exn : Type :=
| ValueError (msg : string)
| Exception (msg : string)
| UnboundLocalError (name : string)
| ZeroDivisionError
| AttributeError.

Inductive result (A : Type) : Type :=
| Ok (a : A)
| Raise (e : exn).

Arguments Ok {A} a.
Arguments Raise {A} e.

#[global] Instance result_ret : MRet result := @Ok.
#[global] Instance result_bind : MBind result := fun A B f m =>
  match m with
  | Ok a => f a
  | Raise e => Raise e
  end.
#[global] Instance result_fmap : FMap result := fun A B f m =>
  match m with
  | Ok a => Ok (f a)
  | Raise e => Raise e
  end.

(** What a method hands back: a float, a dict of floats, or [None]. *)
Inductive pyval : Type :=
| VFloat (x : R)
| VDict (d : gmap string R)
| VNone.

(** * The class [BsOption] *)

Module BsOption.

(** The instance attributes set by [__init__].  Default arguments
    ([q=0], [type_='C']) are left to the caller: every argument is
    explicit here. *)
Record t : Type := mk { S : R; K : R; T : R; r : R; sigma : R; q : R }.

(** The precondition of the data model. *)
Definition valid (o : t) : Prop := 0 < S o /\ 0 < K o /\ 0 < T o /\ 0 < sigma o.

(** ** The object store *)

Abbreviation ref := positive.
Abbreviation heap := (gmap positive t).

Definition M (A : Type) : Type := heap -> result A * heap.

#[global] Instance M_ret : MRet M := fun A a h => (Ok a, h).
#[global] Instance M_bind : MBind M := fun A B f m h =>
  match m h with
  | (Ok a, h') => f a h'
  | (Raise e, h') => (Raise e, h')
  end.
#[global] Instance M_fmap : FMap M := fun A B f m h =>
  match m h with
  | (Ok a, h') => (Ok (f a), h')
  | (Raise e, h') => (Raise e, h')
  end.

Definition raise {A : Type} (e : exn) : M A := fun h => (Raise e, h).

(** Calling a read-only method on the object behind [self]. *)
Definition call {A : Type} (f : t -> result A) (self : ref) : M A := fun h =>
  match h !! self with
  | Some o => (f o, h)
  | None => (Raise AttributeError, h)
  end.

Definition get (self : ref) : M t := call Ok self.

(** [BsOption(S, K, T, r, sigma, q)]: a new object, no argument checked. *)
Definition __init__ (S K T r sigma q : R) : M ref := fun h =>
  let self := fresh (dom h) in
  (Ok self, <[self := mk S K T r sigma q]> h).

(** [self.sigma = v] *)
Definition with_sigma (v : R) (o : t) : t :=
  mk (S o) (K o) (T o) (r o) v (q o).

Definition set_sigma (self : ref) (v : R) : M unit := fun h =>
  match h !! self with
  | Some o => (Ok tt, <[self := with_sigma v o]> h)
  | None => (Raise AttributeError, h)
  end.

(** ** Core math and pricing *)

Definition N (x : R) : R := Normal.cdf x.

Definition params (o : t) : gmap string R :=
  {[ "S" := S o; "K" := K o; "T" := T o; "r" := r o; "q" := q o;
     "sigma" := sigma o ]}.

(** [self.S / self.K] is a division of Python numbers: it raises when the
    strike is zero.  The divisions by NumPy values further on do not. *)
Definition d1 (o : t) : result R :=
  if Req_dec_T (K o) 0 then Raise ZeroDivisionError
  else Ok ((ln (S o / K o) + (r o - q o + sigma o ^ 2 / 2) * T o)
           / (sigma o * sqrt (T o))).

Definition d2 (o : t) : result R :=
  x ← d1 o; Ok (x - sigma o * sqrt (T o)).

Definition _call_value (o : t) : result R :=
  a ← d1 o; b ← d2 o;
  Ok (S o * exp (- q o * T o) * N a - K o * exp (- r o * T o) * N b).

Definition _put_value (o : t) : result R :=
  b ← d2 o; a ← d1 o;
  Ok (K o * exp (- r o * T o) * N (- b) - S o * exp (- q o * T o) * N (- a)).

Definition price (o : t) (type_ : string) : result pyval :=
  if String.eqb type_ "C" then VFloat <$> _call_value o
  else if String.eqb type_ "P" then VFloat <$> _put_value o
  else if String.eqb type_ "B" then
    c ← _call_value o; p ← _put_value o;
    Ok (VDict {[ "call" := c; "put" := p ]})
  else Raise (ValueError "Unrecognized type").

(** ** Greeks *)

Definition delta (o : t) (type_ : string) : result pyval :=
  d1 ← d1 o;
  if String.eqb type_ "C" then Ok (VFloat (exp (- q o * T o) * N d1))
  else if String.eqb type_ "P" then
    Ok (VFloat (exp (- q o * T o) * (N d1 - 1)))
  else Ok VNone.

Definition gamma (o : t) : result R :=
  d1 ← d1 o;
  Ok (exp (- q o * T o) * Normal.pdf d1 / (S o * sigma o * sqrt (T o))).

Definition theta (o : t) (type_ : string) : result pyval :=
  d1 ← d1 o; d2 ← d2 o;
  if String.eqb type_ "C" then
    Ok (VFloat ((- S o * sigma o * exp (- q o * T o) * Normal.pdf d1)
                / (2 * sqrt (T o))
                - r o * K o * exp (- r o * T o) * N d2
                + q o * S o * exp (- q o * T o) * N d1))
  else if String.eqb type_ "P" then
    Ok (VFloat ((- S o * sigma o * exp (- q o * T o) * Normal.pdf d1)
                / (2 * sqrt (T o))
                + r o * K o * exp (- r o * T o) * N (- d2)
                - q o * S o * exp (- q o * T o) * N (- d1)))
  else Ok VNone.

Definition vega (o : t) : result R :=
  d1 ← d1 o;
  Ok (S o * exp (- q o * T o) * sqrt (T o) * Normal.pdf d1).

Definition rho (o : t) (type_ : string) : result pyval :=
  d2 ← d2 o;
  if String.eqb type_ "C" then
    Ok (VFloat (K o * T o * exp (- r o * T o) * N d2))
  else if String.eqb type_ "P" then
    Ok (VFloat (- K o * T o * exp (- r o * T o) * N (- d2)))
  else Ok VNone.

(** ** Implied volatility *)

Definition tolerance : R := 1e-5.
Definition max_iter : nat := 1000.
Definition lower_vol0 : R := 0.001.
Definition upper_vol0 : R := 5.0.

Definition not_found : exn :=
  Exception "Implied volatility not found within the specified tolerance.".

(** The body of [for i in range(max_iter)], with [i] iterations left.
    [option_price_est] is a local variable that is unbound until one of
    the two branches assigns it. *)
Fixpoint iv_loop (i : nat) (self : ref) (option_price : R) (type_ : string)
    (lower_vol upper_vol : R) (option_price_est : option R) : M R :=
  match i with
  | O => raise not_found
  | Datatypes.S i' =>
      let mid_vol := (lower_vol + upper_vol) / 2 in
      _ ← set_sigma self mid_vol;
      est ← (if String.eqb type_ "C" then Some <$> call _call_value self
             else if String.eqb type_ "P" then Some <$> call _put_value self
             else mret option_price_est);
      match est with
      | None => raise (UnboundLocalError "option_price_est")
      | Some option_price_est =>
          let error := option_price - option_price_est in
          if Rlt_dec (Rabs error) tolerance then mret mid_vol
          else if Rlt_dec error 0 then
            iv_loop i' self option_price type_ lower_vol mid_vol
              (Some option_price_est)
          else
            iv_loop i' self option_price type_ mid_vol upper_vol
              (Some option_price_est)
      end
  end.

Definition implied_volatility (self : ref) (option_price : R)
    (type_ : string) : M R :=
  iv_loop max_iter self option_price type_ lower_vol0 upper_vol0 None.

(** ** Strategies *)

Definition option_strategy_price (self : ref) (strategy_type : string) : M R :=
  if String.eqb strategy_type "Straddle" then
    call_price ← call _call_value self;
    put_price ← call _put_value self;
    mret (call_price + put_price)
  else if String.eqb strategy_type "Strangle" then
    o ← get self;
    let call_strike := K o + 10 in
    let put_strike := K o - 10 in
    call_option ← __init__ (S o) call_strike (T o) (r o) (sigma o) (q o);
    put_option ← __init__ (S o) put_strike (T o) (r o) (sigma o) (q o);
    call_price ← call _call_value call_option;
    put_price ← call _put_value put_option;
    mret (call_price + put_price)
  else if String.eqb strategy_type "CalendarSpread" then
    o ← get self;
    long_option ← __init__ (S o) (K o) (T o + 0.5) (r o) (sigma o) (q o);
    short_option ← __init__ (S o) (K o) (T o) (r o) (sigma o) (q o);
    long_price ← call _call_value long_option;
    short_price ← call _call_value short_option;
    mret (long_price - short_price)
  else raise (ValueError "Unrecognized strategy type").

End BsOption.

(** * The specification's formulas and solver

    For comparison with the code: the closed-form formulas of the
    specification (core math and pricing) and its bisection solver, a pure
    function of the parameter set that keeps the volatility in a local
    variable. *)

Module Spec.

Import BsOption.

Inductive kind : Type := Call | Put.

Definition tag (k : kind) : string :=
  match k with
  | Call => "C"
  | Put => "P"
  end.

Definition d1 (p : t) : R :=
  (ln (S p / K p) + (r p - q p + sigma p ^ 2 / 2) * T p)
  / (sigma p * sqrt (T p)).

Definition d2 (p : t) : R := d1 p - sigma p * sqrt (T p).

Definition call_value (p : t) : R :=
  S p * exp (- q p * T p) * Normal.cdf (d1 p)
  - K p * exp (- r p * T p) * Normal.cdf (d2 p).

Definition put_value (p : t) : R :=
  K p * exp (- r p * T p) * Normal.cdf (- d2 p)
  - S p * exp (- q p * T p) * Normal.cdf (- d1 p).

(** The formulas at a volatility [vol] given apart from the parameter
    set, whose own volatility plays no part. *)
Definition d1_at (p : t) (vol : R) : R :=
  (ln (S p / K p) + (r p - q p + vol ^ 2 / 2) * T p) / (vol * sqrt (T p)).

Definition d2_at (p : t) (vol : R) : R := d1_at p vol - vol * sqrt (T p).

Definition call_value_at (p : t) (vol : R) : R :=
  S p * exp (- q p * T p) * Normal.cdf (d1_at p vol)
  - K p * exp (- r p * T p) * Normal.cdf (d2_at p vol).

Definition put_value_at (p : t) (vol : R) : R :=
  K p * exp (- r p * T p) * Normal.cdf (- d2_at p vol)
  - S p * exp (- q p * T p) * Normal.cdf (- d1_at p vol).

(** The model price at volatility [vol], by the formula [k] selects. *)
Definition model_price (k : kind) (p : t) (vol : R) : R :=
  match k with
  | Call => call_value_at p vol
  | Put => put_value_at p vol
  end.

Fixpoint bisect (price : R -> R) (target : R) (iters : nat)
    (lower upper : R) : option R :=
  match iters with
  | O => None
  | Datatypes.S n =>
      let mid := (lower + upper) / 2 in
      let error := target - price mid in
      if Rlt_dec (Rabs error) 1e-5 then Some mid
      else if Rlt_dec error 0 then bisect price target n lower mid
      else bisect price target n mid upper
  end.

Definition implied_volatility (p : t) (target : R) (k : kind) : option R :=
  bisect (model_price k p) target 1000 0.001 5.0.

End Spec.

(** * The pricer in double arithmetic

    The same formulas evaluated as Python evaluates them, on IEEE binary64
    values ([PrimFloat]): [+], [-], [*], [/] and [np.sqrt] are correctly
    rounded, a Python-level division raises on a zero divisor and a
    Python-level power raises when it overflows, and NumPy's divisions
    return infinities or NaN.  [np.exp], [np.log] and [norm.cdf] are library
    functions of which only two values are used: the logarithm of one and
    the distribution function at NaN. *)

Module Double.

Import PrimFloat.
Local Open Scope float_scope.

Record libm : Type := {
  np_exp : float -> float;
  np_log : float -> float;
  norm_cdf : float -> float
}.

(** What every implementation of the library functions gives. *)
Record conforming (m : libm) : Prop := {
  log_one : np_log m 1 = 0;
  cdf_nan : norm_cdf m nan = nan
}.

Record t : Type := mk {
  S : float; K : float; T : float; r : float; sigma : float; q : float
}.

Definition valid (o : t) : bool :=
  andb (andb (0 <? S o) (0 <? K o)) (andb (0 <? T o) (0 <? sigma o)).

Inductive outcome : Type :=
| Value (x : float)
| ZeroDivisionError
| OverflowError.

Definition bind (a : outcome) (f : float -> outcome) : outcome :=
  match a with
  | Value x => f x
  | ZeroDivisionError => ZeroDivisionError
  | OverflowError => OverflowError
  end.

(** [x / y] on Python floats. *)
Definition py_div (x y : float) : outcome :=
  if y =? 0 then ZeroDivisionError else Value (x / y).

(** [x ** 2] on a Python float. *)
Definition py_square (x : float) : outcome :=
  if andb (is_infinity (x * x)) (is_finite x) then OverflowError else Value (x * x).

Section Pricer.

Variable m : libm.

Definition d1 (o : t) : outcome :=
  bind (py_div (S o) (K o)) (fun ratio =>
  bind (py_square (sigma o)) (fun sigma2 =>
  Value ((np_log m ratio + (r o - q o + sigma2 / 2) * T o)
         / (sigma o * sqrt (T o))))).

Definition d2 (o : t) : outcome :=
  bind (d1 o) (fun x => Value (x - sigma o * sqrt (T o))).

Definition _call_value (o : t) : outcome :=
  bind (d1 o) (fun a =>
  bind (d2 o) (fun b =>
  Value (S o * np_exp m (- q o * T o) * norm_cdf m a
         - K o * np_exp m (- r o * T o) * norm_cdf m b))).

Definition _put_value (o : t) : outcome :=
  bind (d2 o) (fun b =>
  bind (d1 o) (fun a =>
  Value (K o * np_exp m (- r o * T o) * norm_cdf m (- b)
         - S o * np_exp m (- q o * T o) * norm_cdf m (- a)))).

(** The parity test with the tolerance [1e-8] (as a double,
    [0x1.5798ee2308c3ap-27]):
    [abs((call - put) - (S*exp(-q*T) - K*exp(-r*T))) < 1e-8]. *)
Definition parity_within (o : t) : bool :=
  match _call_value o, _put_value o with
  | Value c, Value p =>
      abs ((c - p)
           - (S o * np_exp m (- q o * T o) - K o * np_exp m (- r o * T o)))
      <? 0x1.5798ee2308c3ap-27
  | _, _ => false
  end.

End Pricer.

(** A valid parameter set on which [sigma * sqrt(T)] underflows to zero:
    [S = K = 100], [T = 2^-1000], [sigma = 2^-600], [r = q = 0]. *)
Definition underflow_option : t := mk 100 100 0x1p-1000 0 0x1p-600 0.

Lemma mul_nan (x : float) : x * nan = nan.
Proof.
  apply FloatAxioms.Prim2SF_inj. rewrite FloatAxioms.mul_spec.
  change (FloatOps.Prim2SF nan) with SpecFloat.S754_nan.
  destruct (FloatOps.Prim2SF x); reflexivity.
Qed.

Lemma nan_sub (x : float) : nan - x = nan.
Proof.
  apply FloatAxioms.Prim2SF_inj. rewrite FloatAxioms.sub_spec.
  change (FloatOps.Prim2SF nan) with SpecFloat.S754_nan. reflexivity.
Qed.

Lemma underflow_d1 (m : libm) :
  conforming m -> d1 m underflow_option = Value nan.
Proof.
  intros Hm. unfold d1, underflow_option, py_div, py_square, bind. cbn.
  rewrite (log_one m Hm). reflexivity.
Qed.

Lemma underflow_d2 (m : libm) :
  conforming m -> d2 m underflow_option = Value nan.
Proof.
  intros Hm. unfold d2. rewrite (underflow_d1 m Hm). reflexivity.
Qed.

Lemma underflow_call (m : libm) :
  conforming m -> _call_value m underflow_option = Value nan.
Proof.
  intros Hm. unfold _call_value.
  rewrite (underflow_d1 m Hm), (underflow_d2 m Hm). unfold bind.
  rewrite (cdf_nan m Hm), !mul_nan. reflexivity.
Qed.

Lemma underflow_put (m : libm) :
  conforming m -> _put_value m underflow_option = Value nan.
Proof.
  intros Hm. unfold _put_value.
  rewrite (underflow_d1 m Hm), (underflow_d2 m Hm). unfold bind.
  change (- nan) with nan.
  rewrite (cdf_nan m Hm), !mul_nan. reflexivity.
Qed.

(** C2 fails as stated, in the arithmetic the pricer runs in: on this
    valid parameter set [d1] is [0.0 / 0.0], both values come out as NaN
    whatever the library functions return elsewhere, and the test of the
    difference against the tolerance [1e-8] is false. *)
Lemma parity_tolerance_fails_in_doubles :
  valid underflow_option = true /\
  forall m : libm,
    conforming m ->
    _call_value m underflow_option = Value nan /\
    _put_value m underflow_option = Value nan /\
    parity_within m underflow_option = false.
Proof.
  split; [reflexivity |].
  intros m Hm. split; [now apply underflow_call |].
  split; [now apply underflow_put |].
  unfold parity_within.
  rewrite (underflow_call m Hm), (underflow_put m Hm).
  change (nan - nan) with nan. rewrite nan_sub. reflexivity.
Qed.

End Double.

Import BsOption.

Arguments iv_loop : simpl never.
Arguments Spec.bisect : simpl never.

(** The parameter set and the store of the demonstration driver:
    [BsOption(100, 100, 1, 0.1, 0.3)]. *)
Definition driver_option : t := mk 100 100 1 0.1 0.3 0.
Definition driver_heap : heap := {[ 1%positive := driver_option ]}.

(** * Auxiliary notions for the proofs *)

(** The estimate an iteration works with, as a function of the object
    after [self.sigma = mid_vol]. *)
Definition estimate (type_ : string) (est : option R) (o : t)
  : result (option R) :=
  if String.eqb type_ "C" then Some <$> _call_value o
  else if String.eqb type_ "P" then Some <$> _put_value o
  else Ok est.

(** The result that corresponds to an outcome of the specification's
    solver. *)
Definition of_option (m : option R) : result R :=
  match m with
  | Some v => Ok v
  | None => Raise not_found
  end.

(** The initial bracket of the solver. *)
Definition in_bracket (v : R) : Prop := lower_vol0 <= v <= upper_vol0.

(** The points the bisection can visit: the initial bounds and what
    repeated halving makes of them. *)
Definition dyadic_pt (x : R) : Prop :=
  exists (a : Z) (n : nat), x = 0.001 + 4.999 * IZR a / 2 ^ n.

(** At the money ([S = K = s]), zero rates, one year to expiry. *)
Definition atm (s vol : R) : t := mk s s 1 0 vol 0.

(** * Running the formulas *)

Ltac run :=
  unfold mbind, mret, fmap, result_bind, result_ret, result_fmap,
         M_bind, M_ret, M_fmap, raise, call, get.

Lemma d1_ok (o : t) : K o <> 0 -> d1 o = Ok (Spec.d1 o).
Proof. intros HK. unfold d1. destruct (Req_dec_T (K o) 0); [lra | reflexivity]. Qed.

Lemma d1_zero_strike (o : t) : K o = 0 -> d1 o = Raise ZeroDivisionError.
Proof. intros HK. unfold d1. destruct (Req_dec_T (K o) 0); [reflexivity | lra]. Qed.

Lemma d2_ok (o : t) : K o <> 0 -> d2 o = Ok (Spec.d2 o).
Proof. intros HK. unfold d2. rewrite d1_ok by assumption. reflexivity. Qed.

Lemma call_value_ok (o : t) : K o <> 0 -> _call_value o = Ok (Spec.call_value o).
Proof.
  intros HK. unfold _call_value. rewrite d1_ok, d2_ok by assumption.
  reflexivity.
Qed.

Lemma put_value_ok (o : t) : K o <> 0 -> _put_value o = Ok (Spec.put_value o).
Proof.
  intros HK. unfold _put_value. rewrite d1_ok, d2_ok by assumption.
  reflexivity.
Qed.

Lemma valid_strike (o : t) : valid o -> K o <> 0.
Proof. unfold valid. lra. Qed.

Lemma spec_parity (o : t) :
  Spec.call_value o - Spec.put_value o
  = S o * exp (- q o * T o) - K o * exp (- r o * T o).
Proof.
  unfold Spec.call_value, Spec.put_value. rewrite !Normal.cdf_neg. ring.
Qed.

Lemma string_eqb_ne (a b : string) : a <> b -> String.eqb a b = false.
Proof. apply String.eqb_neq. Qed.

(** * Small checks *)

Example params_driver_sigma : params driver_option !! "sigma" = Some 0.3.
Proof. reflexivity. Qed.

Example price_driver_both_keys :
  exists d : gmap string R,
    price driver_option "B" = Ok (VDict d) /\
    d !! "call" = Some (Spec.call_value driver_option) /\
    d !! "put" = Some (Spec.put_value driver_option).
Proof.
  eexists. unfold price. change (String.eqb "B" "C") with false.
  change (String.eqb "B" "P") with false. change (String.eqb "B" "B") with true.
  cbv iota. rewrite call_value_ok, put_value_ok by (simpl; lra).
  split; [reflexivity |]. split; reflexivity.
Qed.

Example d1_zero_strike_raises :
  price (mk 100 0 1 0.1 0.3 0) "C" = Raise ZeroDivisionError.
Proof.
  unfold price, _call_value. change (String.eqb "C" "C") with true. cbv iota.
  rewrite d1_zero_strike by reflexivity. reflexivity.
Qed.

Example first_midpoint : (lower_vol0 + upper_vol0) / 2 = 2.5005.
Proof. unfold lower_vol0, upper_vol0. lra. Qed.

Example straddle_unrecognized (h : heap) :
  option_strategy_price 1%positive "Butterfly" h
  = (Raise (ValueError "Unrecognized strategy type"), h).
Proof. reflexivity. Qed.

(** * Pricing and Greeks *)


(** C2, amended. Put-call parity over exact real arithmetic: on every
    valid parameter set both formulas evaluate, and the call value minus
    the put value is exactly [S·e^(-qT) − K·e^(-rT)].  No tolerance is
    stated for the doubles the pricer computes with. *)
Theorem put_call_parity_exact (o : t) :
  valid o ->
  exists c p : R,
    _call_value o = Ok c /\ _put_value o = Ok p /\
    c - p = S o * exp (- q o * T o) - K o * exp (- r o * T o).
Proof.
  intros Hv. apply valid_strike in Hv.
  exists (Spec.call_value o), (Spec.put_value o).
  rewrite call_value_ok, put_value_ok, spec_parity by assumption.
  repeat split.
Qed.

Lemma put_call_parity_exact_witness :
  valid driver_option /\
  exists c p : R,
    _call_value driver_option = Ok c /\ _put_value driver_option = Ok p /\
    c - p = 100 * exp (- 0 * 1) - 100 * exp (- (0.1) * 1).
Proof.
  assert (valid driver_option) as Hv by (unfold valid; simpl; lra).
  split; [exact Hv | exact (put_call_parity_exact driver_option Hv)].
Defined.








(** * Construction *)

Lemma init_fresh (S0 K0 T0 r0 sigma0 q0 : R) (h : heap) :
  exists self : ref,
    h !! self = None /\
    __init__ S0 K0 T0 r0 sigma0 q0 h
    = (Ok self, <[self := mk S0 K0 T0 r0 sigma0 q0]> h).
Proof.
  exists (fresh (dom h)). split; [| reflexivity].
  apply not_elem_of_dom, is_fresh.
Qed.

Lemma call_lookup {A : Type} (f : t -> result A) (self : ref) (h : heap) (o : t) :
  h !! self = Some o -> call f self h = (f o, h).
Proof. intros H. unfold call. rewrite H. reflexivity. Qed.




(** * The implied-volatility loop *)

Lemma max_iter_S : max_iter = Datatypes.S 999.
Proof. reflexivity. Qed.

Lemma iv_loop_S (i : nat) (self : ref) (option_price : R) (type_ : string)
    (lower_vol upper_vol : R) (est : option R) :
  iv_loop (Datatypes.S i) self option_price type_ lower_vol upper_vol est
  = (let mid_vol := (lower_vol + upper_vol) / 2 in
     _ ← set_sigma self mid_vol;
     est ← (if String.eqb type_ "C" then Some <$> call _call_value self
            else if String.eqb type_ "P" then Some <$> call _put_value self
            else mret est);
     match est with
     | None => raise (UnboundLocalError "option_price_est")
     | Some option_price_est =>
         let error := option_price - option_price_est in
         if Rlt_dec (Rabs error) tolerance then mret mid_vol
         else if Rlt_dec error 0 then
           iv_loop i self option_price type_ lower_vol mid_vol
             (Some option_price_est)
         else
           iv_loop i self option_price type_ mid_vol upper_vol
             (Some option_price_est)
     end).
Proof. reflexivity. Qed.

(** One iteration on a store that holds [o] at [self]. *)
Lemma iv_loop_step (i : nat) (self : ref) (target : R) (type_ : string)
    (lo hi : R) (est : option R) (h : heap) (o : t) :
  h !! self = Some o ->
  iv_loop (Datatypes.S i) self target type_ lo hi est h
  = let mid := (lo + hi) / 2 in
    let h' := <[self := with_sigma mid o]> h in
    match estimate type_ est (with_sigma mid o) with
    | Raise e => (Raise e, h')
    | Ok None => (Raise (UnboundLocalError "option_price_est"), h')
    | Ok (Some e) =>
        if Rlt_dec (Rabs (target - e)) tolerance then (Ok mid, h')
        else if Rlt_dec (target - e) 0 then
          iv_loop i self target type_ lo mid (Some e) h'
        else iv_loop i self target type_ mid hi (Some e) h'
    end.
Proof.
  intros Hself. rewrite iv_loop_S. cbv zeta. unfold estimate.
  unfold mbind at 1, M_bind at 1, set_sigma. rewrite Hself.
  unfold mbind at 1, M_bind at 1.
  destruct (String.eqb type_ "C"); [| destruct (String.eqb type_ "P")].
  - unfold fmap, M_fmap, call. rewrite lookup_insert_eq.
    destruct (_call_value _) as [c | e]; simpl; [| reflexivity].
    repeat destruct (Rlt_dec _ _); reflexivity.
  - unfold fmap, M_fmap, call. rewrite lookup_insert_eq.
    destruct (_put_value _) as [c | e]; simpl; [| reflexivity].
    repeat destruct (Rlt_dec _ _); reflexivity.
  - unfold mret, M_ret. destruct est as [c |]; [| reflexivity].
    repeat destruct (Rlt_dec _ _); reflexivity.
Qed.

Lemma with_sigma_twice (a b : R) (o : t) :
  with_sigma a (with_sigma b o) = with_sigma a o.
Proof. reflexivity. Qed.

(** C10. For a kind other than ['C'] and ['P'] the first iteration
    assigns [self.sigma], assigns no estimate, and the read of
    [option_price_est] raises [UnboundLocalError] (a [NameError]): no
    volatility is returned and neither a [ValueError] nor the
    not-found exception is raised. *)
Theorem implied_volatility_unbound_kind (h : heap) (self : ref) (o : t)
    (target : R) (type_ : string) :
  h !! self = Some o -> type_ <> "C" -> type_ <> "P" ->
  implied_volatility self target type_ h
  = (Raise (UnboundLocalError "option_price_est"),
     <[self := with_sigma ((lower_vol0 + upper_vol0) / 2) o]> h).
Proof.
  intros Hself HC HP. unfold implied_volatility. rewrite max_iter_S.
  rewrite (iv_loop_step _ _ _ _ _ _ _ _ _ Hself). cbv zeta.
  unfold estimate.
  rewrite (string_eqb_ne _ _ HC), (string_eqb_ne _ _ HP). reflexivity.
Qed.

Lemma implied_volatility_unbound_kind_witness :
  implied_volatility 1%positive 10 "B" driver_heap
  = (Raise (UnboundLocalError "option_price_est"),
     <[1%positive := with_sigma ((lower_vol0 + upper_vol0) / 2) driver_option]>
       driver_heap).
Proof.
  apply (implied_volatility_unbound_kind driver_heap 1%positive driver_option).
  - reflexivity.
  - discriminate.
  - discriminate.
Defined.

Lemma iv_loop_O (self : ref) (target : R) (type_ : string) (lo hi : R)
    (est : option R) (h : heap) :
  iv_loop 0 self target type_ lo hi est h = (Raise not_found, h).
Proof. reflexivity. Qed.

(** What a run of the loop does to the store: the object at [self] keeps
    every field but [sigma], which ends as the last midpoint tried; that
    midpoint is the value returned, if one is returned.  [P] is any
    property of the two initial bounds that midpoints preserve. *)
Lemma iv_loop_frame (P : R -> Prop) :
  (forall a b : R, P a -> P b -> P ((a + b) / 2)) ->
  forall (i : nat) (self : ref) (target : R) (type_ : string) (lo hi : R)
         (est : option R) (h : heap) (o : t),
    h !! self = Some o -> P lo -> P hi ->
    exists v : R,
      P v /\
      (iv_loop (Datatypes.S i) self target type_ lo hi est h).2
      = <[self := with_sigma v o]> h /\
      forall x : R,
        (iv_loop (Datatypes.S i) self target type_ lo hi est h).1 = Ok x ->
        x = v.
Proof.
  intros Hmid.
  induction i as [| i IH]; intros self target type_ lo hi est h o Hself Plo Phi;
    rewrite (iv_loop_step _ _ _ _ _ _ _ _ _ Hself); cbv zeta;
    pose proof (Hmid _ _ Plo Phi) as Pmid;
    (destruct (estimate _ _ _) as [[e |] | e];
      [ destruct (Rlt_dec _ _);
        [ exists ((lo + hi) / 2); simpl; split; [assumption |];
          split; [reflexivity | congruence] |]
      | exists ((lo + hi) / 2); simpl; split; [assumption |];
        split; [reflexivity | discriminate]
      | exists ((lo + hi) / 2); simpl; split; [assumption |];
        split; [reflexivity | discriminate] ]).
  - destruct (Rlt_dec _ _); rewrite iv_loop_O;
      exists ((lo + hi) / 2); simpl; (split; [assumption |]);
      (split; [reflexivity | discriminate]).
  - destruct (Rlt_dec _ _).
    + destruct (IH self target type_ lo ((lo + hi) / 2) (Some e)
                  (<[self := with_sigma ((lo + hi) / 2) o]> h)
                  (with_sigma ((lo + hi) / 2) o))
        as (v & Pv & Hsnd & Hfst);
        [apply lookup_insert_eq | assumption | assumption |].
      exists v. rewrite Hsnd, insert_insert_eq. auto.
    + destruct (IH self target type_ ((lo + hi) / 2) hi (Some e)
                  (<[self := with_sigma ((lo + hi) / 2) o]> h)
                  (with_sigma ((lo + hi) / 2) o))
        as (v & Pv & Hsnd & Hfst);
        [apply lookup_insert_eq | assumption | assumption |].
      exists v. rewrite Hsnd, insert_insert_eq. auto.
Qed.

Lemma in_bracket_mid (a b : R) :
  in_bracket a -> in_bracket b -> in_bracket ((a + b) / 2).
Proof. unfold in_bracket. lra. Qed.

Lemma in_bracket_lower : in_bracket lower_vol0.
Proof. unfold in_bracket, lower_vol0, upper_vol0. lra. Qed.

Lemma in_bracket_upper : in_bracket upper_vol0.
Proof. unfold in_bracket, lower_vol0, upper_vol0. lra. Qed.

Lemma dyadic_pt_mid (x y : R) :
  dyadic_pt x -> dyadic_pt y -> dyadic_pt ((x + y) / 2).
Proof.
  intros (a & n & ->) (b & m & ->).
  exists (a * 2 ^ Z.of_nat m + b * 2 ^ Z.of_nat n)%Z, (Datatypes.S (n + m)).
  rewrite plus_IZR, !mult_IZR, <- !pow_IZR. simpl pow. rewrite pow_add.
  assert (2 ^ n <> 0) by (apply pow_nonzero; lra).
  assert (2 ^ m <> 0) by (apply pow_nonzero; lra).
  field. auto.
Qed.

Lemma dyadic_pt_lower : dyadic_pt lower_vol0.
Proof. exists 0%Z, 0%nat. unfold lower_vol0. simpl. lra. Qed.

Lemma dyadic_pt_upper : dyadic_pt upper_vol0.
Proof. exists 1%Z, 0%nat. unfold upper_vol0. simpl. lra. Qed.

Lemma not_divide_4999 (n : nat) (a : Z) :
  (299 * 2 ^ Z.of_nat n)%Z <> (4999 * a)%Z.
Proof.
  revert a. induction n as [| n IH]; intros a Heq.
  - simpl in Heq. lia.
  - rewrite Nat2Z.inj_succ, Z.pow_succ_r in Heq by lia.
    assert (4999 | 2 * (299 * 2 ^ Z.of_nat n))%Z as Hdiv.
    { exists a. lia. }
    apply Z.gauss in Hdiv; [| reflexivity].
    destruct Hdiv as [b Hb]. apply (IH b). lia.
Qed.

(** The initial volatility of the driver, [0.3], is not such a point. *)
Lemma dyadic_pt_not_driver_sigma (v : R) : dyadic_pt v -> v <> 0.3.
Proof.
  intros (a & n & ->) Heq.
  assert (2 ^ n <> 0) as Hpow by (apply pow_nonzero; lra).
  assert (IZR (299 * 2 ^ Z.of_nat n) = IZR (4999 * a)) as HZ.
  { rewrite !mult_IZR, <- pow_IZR.
    apply (Rmult_eq_reg_r (/ 2 ^ n)); [| now apply Rinv_neq_0_compat].
    rewrite Rmult_assoc, Rinv_r by assumption.
    unfold Rdiv in Heq. lra. }
  apply eq_IZR in HZ. exact (not_divide_4999 n a HZ).
Qed.

(** * Frame of the implied-volatility solver *)

(** C1 fails as stated: after the driver's own call
    [option.implied_volatility(10.0, 'C')] the object's [sigma] is no
    longer the [0.3] it was constructed with. *)
Lemma implied_volatility_overwrites_sigma :
  exists o' : t,
    (implied_volatility 1%positive 10 "C" driver_heap).2 !! 1%positive
    = Some o' /\
    sigma o' <> sigma driver_option.
Proof.
  unfold implied_volatility. rewrite max_iter_S.
  destruct (iv_loop_frame dyadic_pt dyadic_pt_mid 999 1%positive 10 "C"
              lower_vol0 upper_vol0 None driver_heap driver_option)
    as (v & Pv & Hsnd & _);
    [reflexivity | apply dyadic_pt_lower | apply dyadic_pt_upper |].
  exists (with_sigma v driver_option). split.
  - rewrite Hsnd. apply lookup_insert_eq.
  - simpl. now apply dyadic_pt_not_driver_sigma.
Qed.

(** C1, amended. A call to [implied_volatility] changes nothing in the
    store but the [sigma] of the object it is called on: [S], [K], [T],
    [r] and [q] keep their values, and [sigma] is overwritten with the
    last midpoint tried, a value of the bracket [0.001, 5.0] that is the
    returned volatility when the call returns one.  This holds for every
    parameter set, target price and kind, whether the call returns or
    raises. *)
Theorem implied_volatility_frame (h : heap) (self : ref) (o : t)
    (target : R) (type_ : string) :
  h !! self = Some o ->
  exists v : R,
    lower_vol0 <= v <= upper_vol0 /\
    (implied_volatility self target type_ h).2
    = <[self := mk (S o) (K o) (T o) (r o) v (q o)]> h /\
    forall x : R,
      (implied_volatility self target type_ h).1 = Ok x -> x = v.
Proof.
  intros Hself. unfold implied_volatility. rewrite max_iter_S.
  exact (iv_loop_frame in_bracket in_bracket_mid 999 self target type_
           lower_vol0 upper_vol0 None h o Hself
           in_bracket_lower in_bracket_upper).
Qed.

Lemma implied_volatility_frame_witness :
  exists v : R,
    lower_vol0 <= v <= upper_vol0 /\
    (implied_volatility 1%positive 10 "C" driver_heap).2
    = <[1%positive := mk 100 100 1 0.1 v 0]> driver_heap /\
    forall x : R,
      (implied_volatility 1%positive 10 "C" driver_heap).1 = Ok x -> x = v.
Proof.
  apply (implied_volatility_frame driver_heap 1%positive driver_option 10 "C").
  reflexivity.
Defined.

(** * The solver against the specification's bisection *)

Lemma bisect_S (price : R -> R) (target : R) (n : nat) (lower upper : R) :
  Spec.bisect price target (Datatypes.S n) lower upper
  = let mid := (lower + upper) / 2 in
    let error := target - price mid in
    if Rlt_dec (Rabs error) 1e-5 then Some mid
    else if Rlt_dec error 0 then Spec.bisect price target n lower mid
    else Spec.bisect price target n mid upper.
Proof. reflexivity. Qed.

Lemma estimate_tag (k : Spec.kind) (est : option R) (o : t) :
  K o <> 0 ->
  estimate (Spec.tag k) est o = Ok (Some (Spec.model_price k o (sigma o))).
Proof.
  intros HK. destruct o as [S0 K0 T0 r0 sigma0 q0].
  destruct k; unfold estimate; simpl.
  - rewrite call_value_ok by assumption. reflexivity.
  - rewrite put_value_ok by assumption. reflexivity.
Qed.

Lemma iv_loop_refines (k : Spec.kind) (target : R) (self : ref) :
  forall (i : nat) (lo hi : R) (est : option R) (h : heap) (o : t),
    h !! self = Some o -> K o <> 0 ->
    (iv_loop i self target (Spec.tag k) lo hi est h).1
    = of_option (Spec.bisect (Spec.model_price k o) target i lo hi).
Proof.
  induction i as [| i IH]; intros lo hi est h o Hself HK.
  - reflexivity.
  - rewrite (iv_loop_step _ _ _ _ _ _ _ _ _ Hself), bisect_S. cbv zeta.
    rewrite estimate_tag by assumption.
    change (sigma (with_sigma ((lo + hi) / 2) o)) with ((lo + hi) / 2).
    change (Spec.model_price k (with_sigma ((lo + hi) / 2) o) ((lo + hi) / 2))
      with (Spec.model_price k o ((lo + hi) / 2)).
    change tolerance with 1e-5.
    destruct (Rlt_dec _ _); [reflexivity |].
    destruct (Rlt_dec _ _).
    + rewrite (IH lo ((lo + hi) / 2) _ _ (with_sigma ((lo + hi) / 2) o));
        [reflexivity | apply lookup_insert_eq | assumption].
    + rewrite (IH ((lo + hi) / 2) hi _ _ (with_sigma ((lo + hi) / 2) o));
        [reflexivity | apply lookup_insert_eq | assumption].
Qed.

(** C5. For the kinds ['C'] and ['P'] the solver's result is the result
    of the specification's bisection: bounds [0.001] and [5.0], midpoint
    [(lower + upper) / 2], model price by the formula the kind selects at
    [sigma = mid], [error = target − model price], [mid] returned as soon
    as [|error| < 1e-5], otherwise [upper = mid] when [error < 0] and
    [lower = mid] when not. *)
Theorem implied_volatility_bisection (h : heap) (self : ref) (o : t)
    (target : R) (k : Spec.kind) :
  h !! self = Some o -> valid o ->
  (implied_volatility self target (Spec.tag k) h).1
  = match Spec.implied_volatility o target k with
    | Some mid => Ok mid
    | None => Raise not_found
    end.
Proof.
  intros Hself Hv. apply valid_strike in Hv.
  unfold implied_volatility, Spec.implied_volatility.
  rewrite (iv_loop_refines k target self max_iter lower_vol0 upper_vol0 None
             h o Hself Hv).
  unfold of_option, max_iter, lower_vol0, upper_vol0. reflexivity.
Qed.

Lemma implied_volatility_bisection_witness :
  (implied_volatility 1%positive 10 "C" driver_heap).1
  = match Spec.implied_volatility driver_option 10 Spec.Call with
    | Some mid => Ok mid
    | None => Raise not_found
    end.
Proof.
  apply (implied_volatility_bisection driver_heap 1%positive driver_option
           10 Spec.Call).
  - reflexivity.
  - unfold valid. simpl. lra.
Defined.

(** * Exhausting the iterations *)

Lemma estimate_price (type_ : string) (est : option R) (o : t) (c : R) :
  type_ = "C" \/ type_ = "P" ->
  price o type_ = Ok (VFloat c) -> estimate type_ est o = Ok (Some c).
Proof.
  unfold price, estimate. intros [-> | ->]; simpl.
  - destruct (_call_value o); simpl; congruence.
  - destruct (_put_value o); simpl; congruence.
Qed.

Lemma iv_loop_not_found (target : R) (type_ : string) (self : ref) (o : t) :
  type_ = "C" \/ type_ = "P" ->
  (forall vol : R,
     lower_vol0 <= vol <= upper_vol0 ->
     exists c : R,
       price (with_sigma vol o) type_ = Ok (VFloat c) /\
       tolerance <= Rabs (target - c)) ->
  forall (i : nat) (lo hi : R) (est : option R) (h : heap) (v : R),
    h !! self = Some (with_sigma v o) -> in_bracket lo -> in_bracket hi ->
    (iv_loop i self target type_ lo hi est h).1 = Raise not_found.
Proof.
  intros Hty Hfar.
  induction i as [| i IH]; intros lo hi est h v Hself Hlo Hhi.
  - reflexivity.
  - rewrite (iv_loop_step _ _ _ _ _ _ _ _ _ Hself). cbv zeta.
    pose proof (in_bracket_mid _ _ Hlo Hhi) as Hmid.
    destruct (Hfar _ Hmid) as (c & Hc & Hgap).
    rewrite with_sigma_twice, (estimate_price _ _ _ _ Hty Hc).
    destruct (Rlt_dec _ _); [lra |].
    destruct (Rlt_dec _ _);
      apply (IH _ _ _ _ ((lo + hi) / 2));
      solve [assumption | exact (lookup_insert_eq _ _ _)].
Qed.

(** * Strategies *)

(** The run of the Strangle branch on a store holding [o] at [self]: two
    new objects, then the two leg values in turn. *)
Lemma strangle_run (h : heap) (self : ref) (o : t) :
  h !! self = Some o ->
  exists call_option put_option : ref,
    let call_leg := mk (S o) (K o + 10) (T o) (r o) (sigma o) (q o) in
    let put_leg := mk (S o) (K o - 10) (T o) (r o) (sigma o) (q o) in
    let h' := <[put_option := put_leg]> (<[call_option := call_leg]> h) in
    h !! call_option = None /\ h !! put_option = None /\
    call_option <> put_option /\
    option_strategy_price self "Strangle" h
    = (call_price ← _call_value call_leg;
       put_price ← _put_value put_leg;
       Ok (call_price + put_price), h').
Proof.
  intros Hself.
  destruct (init_fresh (S o) (K o + 10) (T o) (r o) (sigma o) (q o) h)
    as (lc & Hlc & Hinit_c).
  destruct (init_fresh (S o) (K o - 10) (T o) (r o) (sigma o) (q o)
              (<[lc := mk (S o) (K o + 10) (T o) (r o) (sigma o) (q o)]> h))
    as (lp & Hlp & Hinit_p).
  assert (lc <> lp) as Hne.
  { intros ->. rewrite lookup_insert_eq in Hlp. discriminate. }
  rewrite lookup_insert_ne in Hlp by assumption.
  exists lc, lp. cbv zeta. repeat split; try assumption.
  unfold option_strategy_price.
  change (String.eqb "Strangle" "Straddle") with false.
  change (String.eqb "Strangle" "Strangle") with true. cbv iota.
  unfold get, mbind at 1, M_bind at 1. rewrite (call_lookup _ _ _ _ Hself).
  unfold mbind at 1, M_bind at 1. rewrite Hinit_c.
  unfold mbind at 1, M_bind at 1. rewrite Hinit_p.
  unfold mbind at 1, M_bind at 1.
  erewrite (call_lookup _ lc)
    by (rewrite lookup_insert_ne by auto; apply lookup_insert_eq).
  destruct (_call_value _) as [c | e]; [| reflexivity].
  unfold mbind at 1, M_bind at 1.
  erewrite (call_lookup _ lp) by apply lookup_insert_eq.
  destruct (_put_value _) as [p | e]; reflexivity.
Qed.

(** Mutating one object through [implied_volatility] leaves the others as
    they are. *)
Lemma implied_volatility_other (h : heap) (self other : ref) (o : t)
    (target : R) (type_ : string) :
  h !! self = Some o -> other <> self ->
  (implied_volatility self target type_ h).2 !! other = h !! other.
Proof.
  intros Hself Hne. unfold implied_volatility. rewrite max_iter_S.
  destruct (iv_loop_frame (fun _ => True) (fun _ _ _ _ => I) 999 self target
              type_ lower_vol0 upper_vol0 None h o Hself I I)
    as (v & _ & Hsnd & _).
  rewrite Hsnd. apply lookup_insert_ne. auto.
Qed.




(** * A family of parameter sets with bounded prices

    At the money ([S = K = s]), with zero rates and one year to expiry,
    [d1 = vol / 2] and [d2 = - vol / 2], and both the call and the put
    value are [s * (2 Φ(vol / 2) − 1)]. *)

Lemma atm_d1 (s vol : R) : s <> 0 -> vol <> 0 -> Spec.d1 (atm s vol) = vol / 2.
Proof.
  intros Hs Hvol. unfold Spec.d1, atm. simpl.
  replace (s / s) with 1 by (field; assumption).
  rewrite ln_1, sqrt_1. field. assumption.
Qed.

Lemma atm_d2 (s vol : R) :
  s <> 0 -> vol <> 0 -> Spec.d2 (atm s vol) = - (vol / 2).
Proof.
  intros Hs Hvol. unfold Spec.d2. rewrite atm_d1 by assumption.
  unfold atm. simpl. rewrite sqrt_1. field.
Qed.

Lemma atm_call_value (s vol : R) :
  s <> 0 -> vol <> 0 ->
  Spec.call_value (atm s vol) = s * (2 * Normal.cdf (vol / 2) - 1).
Proof.
  intros Hs Hvol. unfold Spec.call_value.
  rewrite atm_d1, atm_d2, Normal.cdf_neg by assumption.
  unfold atm. simpl. replace (- 0 * 1) with 0 by ring. rewrite exp_0. ring.
Qed.

Lemma atm_put_value (s vol : R) :
  s <> 0 -> vol <> 0 ->
  Spec.put_value (atm s vol) = s * (2 * Normal.cdf (vol / 2) - 1).
Proof.
  intros Hs Hvol. unfold Spec.put_value.
  rewrite atm_d1, atm_d2, Ropp_involutive, Normal.cdf_neg by assumption.
  unfold atm. simpl. replace (- 0 * 1) with 0 by ring. rewrite exp_0. ring.
Qed.

Lemma atm_value_bound (s vol : R) :
  0 < s -> 0 < vol <= 5 ->
  Rabs (s * (2 * Normal.cdf (vol / 2) - 1)) <= 5 * s.
Proof.
  intros Hs Hvol.
  pose proof (Normal.cdf_above_half (vol / 2)) as Hb.
  rewrite Rabs_pos_eq; nra.
Qed.

Lemma atm_price (s v vol : R) (type_ : string) :
  0 < s -> 0 < vol <= 5 -> type_ = "C" \/ type_ = "P" ->
  exists c : R,
    price (with_sigma vol (atm s v)) type_ = Ok (VFloat c) /\
    Rabs c <= 5 * s.
Proof.
  intros Hs Hvol Hty. exists (s * (2 * Normal.cdf (vol / 2) - 1)).
  split; [| now apply atm_value_bound].
  change (with_sigma vol (atm s v)) with (atm s vol).
  unfold price. destruct Hty as [-> | ->].
  - change (String.eqb "C" "C") with true. cbv iota.
    rewrite call_value_ok, atm_call_value by (simpl; lra). reflexivity.
  - change (String.eqb "P" "C") with false.
    change (String.eqb "P" "P") with true. cbv iota.
    rewrite put_value_ok, atm_put_value by (simpl; lra). reflexivity.
Qed.

Lemma with_sigma_id (o : t) : with_sigma (sigma o) o = o.
Proof. destruct o. reflexivity. Qed.

Lemma Rabs_far (target c b : R) :
  Rabs c <= b -> b + tolerance <= target -> tolerance <= Rabs (target - c).
Proof.
  intros Hc Ht. unfold tolerance in *.
  revert Hc. unfold Rabs. repeat destruct (Rcase_abs _); lra.
Qed.

Lemma atm_far (s v target : R) (type_ : string) :
  0 < s -> type_ = "C" \/ type_ = "P" -> 5 * s + tolerance <= target ->
  forall vol : R,
    lower_vol0 <= vol <= upper_vol0 ->
    exists c : R,
      price (with_sigma vol (atm s v)) type_ = Ok (VFloat c) /\
      tolerance <= Rabs (target - c).
Proof.
  intros Hs Hty Ht vol Hvol.
  destruct (atm_price s v vol type_ Hs) as (c & Hc & Hb);
    [unfold lower_vol0, upper_vol0 in Hvol; lra | assumption |].
  exists c. split; [assumption |]. eapply Rabs_far; eassumption.
Qed.

(** * Targets out of reach *)

(** C4 fails as stated.  On [S = K = 1], [T = 1], [r = q = 0] every model
    price is at most [5] in absolute value, so the targets [1000] and
    [2000] are out of reach; the exception raised is one and the same
    for both targets and for both kinds, a plain [Exception] with a fixed
    message: it names neither the target nor the kind nor the bracket.
    On [S = K = 1e-9] no model price reaches [5e-6], and yet the first
    midpoint, [2.5005], is returned as the implied volatility. *)
Lemma unreachable_target_outcomes :
  (implied_volatility 1%positive 1000 "C" {[ 1%positive := atm 1 0.3 ]}).1
  = Raise (Exception
             "Implied volatility not found within the specified tolerance.") /\
  (implied_volatility 1%positive 2000 "C" {[ 1%positive := atm 1 0.3 ]}).1
  = Raise (Exception
             "Implied volatility not found within the specified tolerance.") /\
  (implied_volatility 1%positive 1000 "P" {[ 1%positive := atm 1 0.3 ]}).1
  = Raise (Exception
             "Implied volatility not found within the specified tolerance.") /\
  (forall vol c : R,
     0.001 <= vol <= 5.0 ->
     _call_value (with_sigma vol (atm 1e-9 0.3)) = Ok c -> c <> 5e-6) /\
  (implied_volatility 1%positive 5e-6 "C" {[ 1%positive := atm 1e-9 0.3 ]}).1
  = Ok 2.5005.
Proof.
  assert (forall target type_,
            type_ = "C" \/ type_ = "P" -> 1000 <= target ->
            (implied_volatility 1%positive target type_
               {[ 1%positive := atm 1 0.3 ]}).1 = Raise not_found) as Hnf.
  { intros target type_ Hty Ht. unfold implied_volatility.
    apply (iv_loop_not_found target type_ 1%positive (atm 1 0.3) Hty)
      with (v := 0.3).
    - apply atm_far; [lra | assumption | unfold tolerance; lra].
    - apply lookup_singleton_eq.
    - apply in_bracket_lower.
    - apply in_bracket_upper. }
  split; [apply Hnf; [auto | lra] |].
  split; [apply Hnf; [auto | lra] |].
  split; [apply Hnf; [auto | lra] |].
  split.
  - intros vol c Hvol Hc Heq.
    destruct (atm_price 1e-9 0.3 vol "C") as (c' & Hc' & Hb);
      [lra | lra | auto |].
    unfold price in Hc'. change (String.eqb "C" "C") with true in Hc'.
    cbv iota in Hc'. rewrite Hc in Hc'. injection Hc' as <-.
    revert Hb. rewrite Heq. unfold Rabs. destruct (Rcase_abs _); lra.
  - unfold implied_volatility. rewrite max_iter_S.
    rewrite (iv_loop_step _ _ _ _ _ _ _ _ _ (lookup_singleton_eq _ _)).
    cbv zeta.
    destruct (atm_price 1e-9 0.3 ((lower_vol0 + upper_vol0) / 2) "C")
      as (c & Hc & Hb);
      [lra | unfold lower_vol0, upper_vol0; lra | auto |].
    rewrite (estimate_price "C" None _ c) by auto.
    destruct (Rlt_dec _ _) as [_ | Hge].
    + simpl. f_equal. unfold lower_vol0, upper_vol0. lra.
    + exfalso. apply Hge. unfold tolerance.
      revert Hb. unfold Rabs. repeat destruct (Rcase_abs _); lra.
Qed.

(** C4, amended. When the target price is at least the tolerance [1e-5]
    away from the model price at every volatility of [0.001, 5.0] (kind
    ['C'] or ['P']), [implied_volatility] runs the [1000] iterations of
    its loop and then raises a plain [Exception] with the fixed message
    'Implied volatility not found within the specified tolerance.', which
    carries neither the target price nor the kind nor the bracket; no
    volatility is returned. *)
Theorem implied_volatility_not_found (h : heap) (self : ref) (o : t)
    (target : R) (type_ : string) :
  h !! self = Some o ->
  type_ = "C" \/ type_ = "P" ->
  (forall vol : R,
     lower_vol0 <= vol <= upper_vol0 ->
     exists c : R,
       price (with_sigma vol o) type_ = Ok (VFloat c) /\
       tolerance <= Rabs (target - c)) ->
  (implied_volatility self target type_ h).1
  = Raise (Exception
             "Implied volatility not found within the specified tolerance.").
Proof.
  intros Hself Hty Hfar. unfold implied_volatility.
  apply (iv_loop_not_found target type_ self o Hty Hfar) with (v := sigma o).
  - rewrite with_sigma_id. assumption.
  - apply in_bracket_lower.
  - apply in_bracket_upper.
Qed.

Lemma implied_volatility_not_found_witness :
  (implied_volatility 1%positive 1000 "C" {[ 1%positive := atm 1 0.3 ]}).1
  = Raise (Exception
             "Implied volatility not found within the specified tolerance.").
Proof.
  apply (implied_volatility_not_found {[ 1%positive := atm 1 0.3 ]} 1%positive
           (atm 1 0.3) 1000 "C").
  - apply lookup_singleton_eq.
  - left. reflexivity.
  - apply atm_far; [lra | left; reflexivity | unfold tolerance; lra].
Defined.

(** * Further properties of the Greeks *)

Lemma gamma_ok (o : t) :
  K o <> 0 ->
  gamma o = Ok (exp (- q o * T o) * Normal.pdf (Spec.d1 o)
                / (S o * sigma o * sqrt (T o))).
Proof. intros HK. unfold gamma. rewrite d1_ok by assumption. reflexivity. Qed.

Lemma vega_ok (o : t) :
  K o <> 0 ->
  vega o = Ok (S o * exp (- q o * T o) * sqrt (T o) * Normal.pdf (Spec.d1 o)).
Proof. intros HK. unfold vega. rewrite d1_ok by assumption. reflexivity. Qed.

(** X3. On every valid parameter set the two kind-free Greeks are tied by
    [vega = gamma · S² · sigma · T]. *)
Theorem vega_gamma_relation (o : t) :
  valid o ->
  exists v g : R,
    vega o = Ok v /\ gamma o = Ok g /\ v = g * (S o * S o) * sigma o * T o.
Proof.
  intros Hv. pose proof (valid_strike o Hv) as HK.
  destruct Hv as (HS & _ & HT & Hsig).
  do 2 eexists. split; [apply vega_ok; assumption |].
  split; [apply gamma_ok; assumption |].
  pose proof (sqrt_lt_R0 _ HT) as Hs.
  assert (T o = sqrt (T o) * sqrt (T o)) as Hsq
    by (symmetry; apply sqrt_sqrt; lra).
  generalize dependent (exp (- q o * T o)). intros e.
  generalize dependent (Normal.pdf (Spec.d1 o)). intros p.
  generalize dependent (sqrt (T o)). intros st Hst Hsq.
  rewrite Hsq. field. repeat split; lra.
Qed.

Lemma vega_gamma_relation_witness :
  exists v g : R,
    vega driver_option = Ok v /\ gamma driver_option = Ok g /\
    v = g * (S driver_option * S driver_option) * sigma driver_option
        * T driver_option.
Proof.
  apply (vega_gamma_relation driver_option). unfold valid. simpl. lra.
Defined.

(** X4. On every valid parameter set [rho('C')] minus [rho('P')] is
    [K·T·e^(-rT)]. *)
Theorem rho_call_minus_put (o : t) :
  valid o ->
  exists rc rp : R,
    rho o "C" = Ok (VFloat rc) /\ rho o "P" = Ok (VFloat rp) /\
    rc - rp = K o * T o * exp (- r o * T o).
Proof.
  intros Hv. apply valid_strike in Hv.
  exists (K o * T o * exp (- r o * T o) * N (Spec.d2 o)),
         (- K o * T o * exp (- r o * T o) * N (- Spec.d2 o)).
  unfold rho. rewrite d2_ok by assumption.
  repeat split. unfold N. rewrite Normal.cdf_neg. ring.
Qed.

Lemma rho_call_minus_put_witness :
  exists rc rp : R,
    rho driver_option "C" = Ok (VFloat rc) /\
    rho driver_option "P" = Ok (VFloat rp) /\
    rc - rp = K driver_option * T driver_option
              * exp (- r driver_option * T driver_option).
Proof.
  apply (rho_call_minus_put driver_option). unfold valid. simpl. lra.
Defined.

(** X5. On every valid parameter set [theta('C')] minus [theta('P')] is
    [q·S·e^(-qT) − r·K·e^(-rT)]: the volatility term cancels. *)
Theorem theta_call_minus_put (o : t) :
  valid o ->
  exists tc tp : R,
    theta o "C" = Ok (VFloat tc) /\ theta o "P" = Ok (VFloat tp) /\
    tc - tp = q o * S o * exp (- q o * T o) - r o * K o * exp (- r o * T o).
Proof.
  intros Hv. pose proof (valid_strike o Hv) as HK.
  destruct Hv as (_ & _ & HT & _).
  unfold theta. rewrite d1_ok, d2_ok by assumption.
  do 2 eexists. split; [reflexivity |]. split; [reflexivity |].
  pose proof (sqrt_lt_R0 _ HT) as Hs.
  unfold N. rewrite !Normal.cdf_neg. field. lra.
Qed.

Lemma theta_call_minus_put_witness :
  exists tc tp : R,
    theta driver_option "C" = Ok (VFloat tc) /\
    theta driver_option "P" = Ok (VFloat tp) /\
    tc - tp = q driver_option * S driver_option
              * exp (- q driver_option * T driver_option)
              - r driver_option * K driver_option
                * exp (- r driver_option * T driver_option).
Proof.
  apply (theta_call_minus_put driver_option). unfold valid. simpl. lra.
Defined.

(** * A zero strike *)

Lemma d2_zero_strike (o : t) : K o = 0 -> d2 o = Raise ZeroDivisionError.
Proof. intros HK. unfold d2. rewrite d1_zero_strike by assumption. reflexivity. Qed.

(** X6. With a zero strike the division [self.S / self.K] fails before
    anything else is computed: [price] for each recognized kind and every
    Greek, whatever its kind argument, raise [ZeroDivisionError]; the
    Greeks do not get as far as returning [None] for an unrecognized
    kind.  [price] tests the kind first, so an unrecognized kind still
    gets its [ValueError]. *)
Theorem zero_strike_raises (o : t) (type_ : string) :
  K o = 0 ->
  price o "C" = Raise ZeroDivisionError /\
  price o "P" = Raise ZeroDivisionError /\
  price o "B" = Raise ZeroDivisionError /\
  delta o type_ = Raise ZeroDivisionError /\
  gamma o = Raise ZeroDivisionError /\
  theta o type_ = Raise ZeroDivisionError /\
  vega o = Raise ZeroDivisionError /\
  rho o type_ = Raise ZeroDivisionError /\
  (type_ <> "C" -> type_ <> "P" -> type_ <> "B" ->
   price o type_ = Raise (ValueError "Unrecognized type")).
Proof.
  intros HK.
  assert (_call_value o = Raise ZeroDivisionError) as Hc
    by (unfold _call_value; rewrite d1_zero_strike by assumption; reflexivity).
  assert (_put_value o = Raise ZeroDivisionError) as Hp
    by (unfold _put_value; rewrite d2_zero_strike by assumption; reflexivity).
  unfold price, delta, gamma, theta, vega, rho.
  change (String.eqb "C" "C") with true. change (String.eqb "P" "C") with false.
  change (String.eqb "P" "P") with true. change (String.eqb "B" "C") with false.
  change (String.eqb "B" "P") with false. change (String.eqb "B" "B") with true.
  cbv iota. rewrite Hc, Hp, d1_zero_strike, d2_zero_strike by assumption.
  repeat split.
  intros HC HP HB.
  rewrite (string_eqb_ne _ _ HC), (string_eqb_ne _ _ HP),
          (string_eqb_ne _ _ HB).
  reflexivity.
Qed.

Lemma zero_strike_raises_witness :
  price (mk 100 0 1 0.1 0.3 0) "C" = Raise ZeroDivisionError /\
  price (mk 100 0 1 0.1 0.3 0) "P" = Raise ZeroDivisionError /\
  price (mk 100 0 1 0.1 0.3 0) "B" = Raise ZeroDivisionError /\
  delta (mk 100 0 1 0.1 0.3 0) "X" = Raise ZeroDivisionError /\
  gamma (mk 100 0 1 0.1 0.3 0) = Raise ZeroDivisionError /\
  theta (mk 100 0 1 0.1 0.3 0) "X" = Raise ZeroDivisionError /\
  vega (mk 100 0 1 0.1 0.3 0) = Raise ZeroDivisionError /\
  rho (mk 100 0 1 0.1 0.3 0) "X" = Raise ZeroDivisionError /\
  price (mk 100 0 1 0.1 0.3 0) "X" = Raise (ValueError "Unrecognized type").
Proof.
  pose proof (zero_strike_raises (mk 100 0 1 0.1 0.3 0) "X" eq_refl)
    as (H1 & H2 & H3 & H4 & H5 & H6 & H7 & H8 & H9).
  repeat (split; [assumption |]).
  apply H9; discriminate.
Defined.

(** X7. With a zero strike and a kind ['C'] or ['P'], the solver fails in
    its first iteration with [ZeroDivisionError], after it has already
    overwritten [sigma] with the first midpoint. *)
Theorem implied_volatility_zero_strike (h : heap) (self : ref) (o : t)
    (target : R) (type_ : string) :
  h !! self = Some o -> K o = 0 -> type_ = "C" \/ type_ = "P" ->
  implied_volatility self target type_ h
  = (Raise ZeroDivisionError,
     <[self := with_sigma ((lower_vol0 + upper_vol0) / 2) o]> h).
Proof.
  intros Hself HK Hty. unfold implied_volatility. rewrite max_iter_S.
  rewrite (iv_loop_step _ _ _ _ _ _ _ _ _ Hself). cbv zeta.
  unfold estimate, _call_value, _put_value.
  rewrite d1_zero_strike, d2_zero_strike by assumption.
  destruct Hty as [-> | ->]; reflexivity.
Qed.

Lemma implied_volatility_zero_strike_witness :
  implied_volatility 1%positive 10 "P" {[ 1%positive := mk 100 0 1 0.1 0.3 0 ]}
  = (Raise ZeroDivisionError,
     <[1%positive := with_sigma ((lower_vol0 + upper_vol0) / 2)
                       (mk 100 0 1 0.1 0.3 0)]>
       {[ 1%positive := mk 100 0 1 0.1 0.3 0 ]}).
Proof.
  apply (implied_volatility_zero_strike _ 1%positive (mk 100 0 1 0.1 0.3 0)).
  - apply lookup_singleton_eq.
  - reflexivity.
  - right. reflexivity.
Defined.

(** * What the solver returns *)

Lemma implied_volatility_eq (self : ref) (target : R) (type_ : string)
    (h : heap) :
  implied_volatility self target type_ h
  = iv_loop max_iter self target type_ lower_vol0 upper_vol0 None h.
Proof. reflexivity. Qed.

Lemma estimate_price_inv (type_ : string) (est : option R) (o : t) (c : R) :
  type_ = "C" \/ type_ = "P" ->
  estimate type_ est o = Ok (Some c) -> price o type_ = Ok (VFloat c).
Proof.
  unfold price, estimate. intros [-> | ->]; simpl.
  - destruct (_call_value o); simpl; congruence.
  - destruct (_put_value o); simpl; congruence.
Qed.

Lemma iv_loop_sound (target : R) (type_ : string) (self : ref) (o : t) :
  type_ = "C" \/ type_ = "P" ->
  forall (i : nat) (lo hi : R) (est : option R) (h : heap) (s v : R),
    h !! self = Some (with_sigma s o) -> lo < hi ->
    (iv_loop i self target type_ lo hi est h).1 = Ok v ->
    lo < v < hi /\
    (iv_loop i self target type_ lo hi est h).2 = <[self := with_sigma v o]> h /\
    exists c : R,
      price (with_sigma v o) type_ = Ok (VFloat c) /\
      Rabs (target - c) < tolerance.
Proof.
  intros Hty.
  induction i as [| i IH]; intros lo hi est h s v Hself Hlt.
  - rewrite iv_loop_O. discriminate.
  - rewrite (iv_loop_step _ _ _ _ _ _ _ _ _ Hself). cbv zeta.
    rewrite with_sigma_twice.
    destruct (estimate _ _ _) as [[e |] | e] eqn:Hest;
      [| discriminate | discriminate].
    destruct (Rlt_dec _ _) as [Hconv | _].
    + simpl. intros [= <-]. split; [lra |]. split; [reflexivity |].
      exists e. split; [| assumption].
      eapply estimate_price_inv; eassumption.
    + destruct (Rlt_dec _ _); intros Hres;
        [ destruct (IH lo ((lo + hi) / 2) (Some e) _ ((lo + hi) / 2) v
                      (lookup_insert_eq _ _ _) ltac:(lra) Hres)
            as (Hv & Hsnd & Hc)
        | destruct (IH ((lo + hi) / 2) hi (Some e) _ ((lo + hi) / 2) v
                      (lookup_insert_eq _ _ _) ltac:(lra) Hres)
            as (Hv & Hsnd & Hc) ];
        (split; [lra |]); (split; [| assumption]);
        rewrite Hsnd, insert_insert_eq; reflexivity.
Qed.

(** X8. Whenever [implied_volatility] returns a volatility [v]: the kind
    was ['C'] or ['P'], [v] lies in the bracket [0.001, 5.0], the
    object's [sigma] is now [v] and nothing else in the store has
    changed, and the price of the kind at [sigma = v] is within the
    tolerance [1e-5] of the target. *)
Theorem implied_volatility_sound (h : heap) (self : ref) (o : t)
    (target : R) (type_ : string) (v : R) :
  h !! self = Some o ->
  (implied_volatility self target type_ h).1 = Ok v ->
  (type_ = "C" \/ type_ = "P") /\
  lower_vol0 <= v <= upper_vol0 /\
  (implied_volatility self target type_ h).2 = <[self := with_sigma v o]> h /\
  exists c : R,
    price (with_sigma v o) type_ = Ok (VFloat c) /\
    Rabs (target - c) < tolerance.
Proof.
  intros Hself Hres.
  assert (type_ = "C" \/ type_ = "P") as Hty.
  { destruct (String.eqb_spec type_ "C") as [| HC]; [auto |].
    destruct (String.eqb_spec type_ "P") as [| HP]; [auto |].
    exfalso. revert Hres. unfold implied_volatility. rewrite max_iter_S.
    rewrite (iv_loop_step _ _ _ _ _ _ _ _ _ Hself). cbv zeta.
    unfold estimate.
    rewrite (string_eqb_ne _ _ HC), (string_eqb_ne _ _ HP). discriminate. }
  split; [assumption |].
  rewrite implied_volatility_eq in *.
  destruct (iv_loop_sound target type_ self o Hty max_iter lower_vol0
              upper_vol0 None h (sigma o) v) as (Hv & Hsnd & Hc).
  - rewrite with_sigma_id. assumption.
  - unfold lower_vol0, upper_vol0. lra.
  - exact Hres.
  - split; [lra |]. split; assumption.
Qed.

(** On a parameter set of the [atm] family whose prices are all below the
    tolerance, a small target is accepted at the first midpoint. *)
Lemma atm_first_midpoint (s v0 target : R) (type_ : string) :
  0 < s -> type_ = "C" \/ type_ = "P" ->
  Rabs target + 5 * s < tolerance ->
  (implied_volatility 1%positive target type_ {[ 1%positive := atm s v0 ]}).1
  = Ok ((lower_vol0 + upper_vol0) / 2).
Proof.
  intros Hs Hty Hsmall. unfold implied_volatility. rewrite max_iter_S.
  rewrite (iv_loop_step _ _ _ _ _ _ _ _ _ (lookup_singleton_eq _ _)).
  cbv zeta.
  destruct (atm_price s v0 ((lower_vol0 + upper_vol0) / 2) type_ Hs)
    as (c & Hc & Hb);
    [unfold lower_vol0, upper_vol0; lra | assumption |].
  rewrite (estimate_price type_ None _ c Hty Hc).
  destruct (Rlt_dec _ _) as [_ | Hge]; [reflexivity |].
  exfalso. apply Hge.
  revert Hsmall Hb. unfold Rabs. repeat destruct (Rcase_abs _); lra.
Qed.

Lemma implied_volatility_sound_witness :
  ("C" = "C" \/ "C" = "P") /\
  lower_vol0 <= (lower_vol0 + upper_vol0) / 2 <= upper_vol0 /\
  (implied_volatility 1%positive 5e-6 "C" {[ 1%positive := atm 1e-9 0.3 ]}).2
  = <[1%positive := with_sigma ((lower_vol0 + upper_vol0) / 2) (atm 1e-9 0.3)]>
      {[ 1%positive := atm 1e-9 0.3 ]} /\
  exists c : R,
    price (with_sigma ((lower_vol0 + upper_vol0) / 2) (atm 1e-9 0.3)) "C"
    = Ok (VFloat c) /\
    Rabs (5e-6 - c) < tolerance.
Proof.
  apply (implied_volatility_sound {[ 1%positive := atm 1e-9 0.3 ]} 1%positive
           (atm 1e-9 0.3) 5e-6 "C").
  - apply lookup_singleton_eq.
  - apply atm_first_midpoint.
    + lra.
    + left. reflexivity.
    + unfold tolerance, Rabs. destruct (Rcase_abs _); lra.
Defined.

(** * The solver and the object's own volatility *)

Lemma implied_volatility_ignores_sigma (h : heap) (self : ref) (o : t)
    (s target : R) (type_ : string) :
  h !! self = Some o ->
  implied_volatility self target type_ (<[self := with_sigma s o]> h)
  = implied_volatility self target type_ h.
Proof.
  intros Hself. rewrite !implied_volatility_eq, max_iter_S.
  rewrite (iv_loop_step _ _ _ _ _ _ _ _ _ Hself).
  rewrite (iv_loop_step _ _ _ _ _ _ _ _ _ (lookup_insert_eq _ _ _)).
  cbv zeta. rewrite with_sigma_twice, insert_insert_eq. reflexivity.
Qed.

(** X10. The solver never reads the volatility the object holds at entry:
    its result and the store it leaves are the same whatever that
    volatility is.  In particular a second call with the same arguments,
    made on the store the first one left, gives the same result and
    leaves the same store. *)
Theorem implied_volatility_idempotent (h : heap) (self : ref) (o : t)
    (target : R) (type_ : string) :
  h !! self = Some o ->
  (forall s : R,
     implied_volatility self target type_ (<[self := with_sigma s o]> h)
     = implied_volatility self target type_ h) /\
  implied_volatility self target type_
    (implied_volatility self target type_ h).2
  = implied_volatility self target type_ h.
Proof.
  intros Hself. split.
  - intros s. now apply implied_volatility_ignores_sigma.
  - rewrite (implied_volatility_eq self target type_ h) at 1.
    rewrite max_iter_S.
    destruct (iv_loop_frame (fun _ => True) (fun _ _ _ _ => I) 999 self target
                type_ lower_vol0 upper_vol0 None h o Hself I I)
      as (v & _ & Hsnd & _).
    rewrite Hsnd. now apply implied_volatility_ignores_sigma.
Qed.

Lemma implied_volatility_idempotent_witness :
  (forall s : R,
     implied_volatility 1%positive 10 "C"
       (<[1%positive := with_sigma s driver_option]> driver_heap)
     = implied_volatility 1%positive 10 "C" driver_heap) /\
  implied_volatility 1%positive 10 "C"
    (implied_volatility 1%positive 10 "C" driver_heap).2
  = implied_volatility 1%positive 10 "C" driver_heap.
Proof.
  apply (implied_volatility_idempotent driver_heap 1%positive driver_option).
  reflexivity.
Defined.

(** * Strategies, continued *)

Lemma straddle_run (h : heap) (self : ref) (o : t) :
  h !! self = Some o ->
  option_strategy_price self "Straddle" h
  = (call_price ← _call_value o; put_price ← _put_value o;
     Ok (call_price + put_price), h).
Proof.
  intros Hself. unfold option_strategy_price.
  change (String.eqb "Straddle" "Straddle") with true. cbv iota.
  unfold mbind at 1, M_bind at 1. rewrite (call_lookup _ _ _ _ Hself).
  destruct (_call_value o) as [c | e]; [| reflexivity].
  unfold mbind at 1, M_bind at 1. rewrite (call_lookup _ _ _ _ Hself).
  destruct (_put_value o) as [p | e]; reflexivity.
Qed.



(** X12. The overwritten volatility is what later calls see: after
    [implied_volatility] has returned [v], the Straddle price of the same
    object is the call value plus the put value at [sigma = v], not at
    the volatility the object was constructed with. *)
Theorem straddle_after_implied_volatility (h : heap) (self : ref) (o : t)
    (target : R) (type_ : string) (v : R) :
  h !! self = Some o -> K o <> 0 ->
  (implied_volatility self target type_ h).1 = Ok v ->
  exists c p : R,
    _call_value (with_sigma v o) = Ok c /\
    _put_value (with_sigma v o) = Ok p /\
    option_strategy_price self "Straddle"
      (implied_volatility self target type_ h).2
    = (Ok (c + p), (implied_volatility self target type_ h).2).
Proof.
  intros Hself HK Hres.
  rewrite implied_volatility_eq, max_iter_S in *.
  destruct (iv_loop_frame (fun _ => True) (fun _ _ _ _ => I) 999 self target
              type_ lower_vol0 upper_vol0 None h o Hself I I)
    as (v' & _ & Hsnd & Hfst).
  rewrite (Hfst v Hres). rewrite Hsnd.
  exists (Spec.call_value (with_sigma v' o)), (Spec.put_value (with_sigma v' o)).
  rewrite (straddle_run _ self (with_sigma v' o) (lookup_insert_eq _ _ _)).
  rewrite call_value_ok, put_value_ok by assumption.
  repeat split.
Qed.

Lemma straddle_after_implied_volatility_witness :
  exists c p : R,
    _call_value (with_sigma ((lower_vol0 + upper_vol0) / 2) (atm 1e-9 0.3))
    = Ok c /\
    _put_value (with_sigma ((lower_vol0 + upper_vol0) / 2) (atm 1e-9 0.3))
    = Ok p /\
    option_strategy_price 1%positive "Straddle"
      (implied_volatility 1%positive 5e-6 "C"
         {[ 1%positive := atm 1e-9 0.3 ]}).2
    = (Ok (c + p),
       (implied_volatility 1%positive 5e-6 "C"
          {[ 1%positive := atm 1e-9 0.3 ]}).2).
Proof.
  apply (straddle_after_implied_volatility {[ 1%positive := atm 1e-9 0.3 ]}
           1%positive (atm 1e-9 0.3) 5e-6 "C").
  - apply lookup_singleton_eq.
  - simpl. lra.
  - apply atm_first_midpoint.
    + lra.
    + left. reflexivity.
    + unfold tolerance, Rabs. destruct (Rcase_abs _); lra.
Defined.

(** X13. [params] follows the mutation: the dict of the object the solver
    has worked on is the dict of the object before the call with the
    entry ['sigma'] replaced by the last midpoint tried, which is the
    value returned when one is returned. *)
Theorem params_after_implied_volatility (h : heap) (self : ref) (o : t)
    (target : R) (type_ : string) :
  h !! self = Some o ->
  exists (o' : t) (v : R),
    (implied_volatility self target type_ h).2 !! self = Some o' /\
    params o' = <["sigma" := v]> (params o) /\
    forall x : R, (implied_volatility self target type_ h).1 = Ok x -> x = v.
Proof.
  intros Hself. rewrite implied_volatility_eq, max_iter_S.
  destruct (iv_loop_frame (fun _ => True) (fun _ _ _ _ => I) 999 self target
              type_ lower_vol0 upper_vol0 None h o Hself I I)
    as (v & _ & Hsnd & Hfst).
  exists (with_sigma v o), v. rewrite Hsnd.
  split; [apply lookup_insert_eq |]. split; [| exact Hfst].
  unfold params. simpl.
  apply map_eq. intros k.
  repeat (rewrite lookup_insert; case_decide; [subst; try done |]);
    try done.
  rewrite !lookup_singleton_ne by done. reflexivity.
Qed.

Lemma params_after_implied_volatility_witness :
  exists (o' : t) (v : R),
    (implied_volatility 1%positive 10 "C" driver_heap).2 !! 1%positive
    = Some o' /\
    params o' = <["sigma" := v]> (params driver_option) /\
    forall x : R,
      (implied_volatility 1%positive 10 "C" driver_heap).1 = Ok x -> x = v.
Proof.
  apply (params_after_implied_volatility driver_heap 1%positive driver_option).
  reflexivity.
Defined.

Lemma mk_eta (o : t) : mk (S o) (K o) (T o) (r o) (sigma o) (q o) = o.
Proof. destruct o. reflexivity. Qed.

(** The run of the CalendarSpread branch on a store holding [o] at
    [self]. *)
Lemma calendar_run (h : heap) (self : ref) (o : t) :
  h !! self = Some o ->
  exists long_option short_option : ref,
    let long_leg := mk (S o) (K o) (T o + 0.5) (r o) (sigma o) (q o) in
    let h' := <[short_option := o]> (<[long_option := long_leg]> h) in
    h !! long_option = None /\ h !! short_option = None /\
    long_option <> short_option /\
    option_strategy_price self "CalendarSpread" h
    = (long_price ← _call_value long_leg;
       short_price ← _call_value o;
       Ok (long_price - short_price), h').
Proof.
  intros Hself.
  destruct (init_fresh (S o) (K o) (T o + 0.5) (r o) (sigma o) (q o) h)
    as (ll & Hll & Hinit_l).
  destruct (init_fresh (S o) (K o) (T o) (r o) (sigma o) (q o)
              (<[ll := mk (S o) (K o) (T o + 0.5) (r o) (sigma o) (q o)]> h))
    as (ls & Hls & Hinit_s).
  assert (ll <> ls) as Hne.
  { intros ->. rewrite lookup_insert_eq in Hls. discriminate. }
  rewrite lookup_insert_ne in Hls by assumption.
  exists ll, ls. cbv zeta. repeat split; try assumption.
  unfold option_strategy_price.
  change (String.eqb "CalendarSpread" "Straddle") with false.
  change (String.eqb "CalendarSpread" "Strangle") with false.
  change (String.eqb "CalendarSpread" "CalendarSpread") with true. cbv iota.
  unfold get, mbind at 1, M_bind at 1. rewrite (call_lookup _ _ _ _ Hself).
  unfold mbind at 1, M_bind at 1. rewrite Hinit_l.
  unfold mbind at 1, M_bind at 1. rewrite Hinit_s.
  rewrite mk_eta.
  unfold mbind at 1, M_bind at 1.
  erewrite (call_lookup _ ll)
    by (rewrite lookup_insert_ne by auto; apply lookup_insert_eq).
  destruct (_call_value _) as [c | e]; [| reflexivity].
  unfold mbind at 1, M_bind at 1.
  erewrite (call_lookup _ ls) by apply lookup_insert_eq.
  destruct (_call_value o) as [p | e]; reflexivity.
Qed.




